(** * task3.js: generalised rock-paper-scissors with an HMAC commitment

    A shallow embedding of [task3.js] and the properties of its
    win-determination rule, help table, argument validation and
    commit/reveal protocol.

    JavaScript numbers that the program manipulates are array indices and
    lengths; they are modelled as [Z] (every value involved is an integer far
    below 2^53, where IEEE doubles are exact).  Move labels are [string]s and
    [===] on them is [String.eqb]. *)

From Stdlib Require Import ZArith List String Ascii Bool Lia.
From Stdlib Require Import DecimalString Finite.
Import ListNotations.

Local Open Scope string_scope.
Local Open Scope Z_scope.

(** ** JavaScript built-ins used by the program *)

Module JS.

(** [Array.prototype.indexOf]: position of the first element strictly equal
    to [x], or [-1] when there is none. *)
Fixpoint indexOfFrom (arr : list string) (x : string) (k : Z) : Z :=
  match arr with
  | [] => -1
  | y :: rest => if String.eqb y x then k else indexOfFrom rest x (k + 1)
  end.

Definition indexOf (arr : list string) (x : string) : Z :=
  indexOfFrom arr x 0.

(** [arr.length] as a number. *)
Definition length (arr : list string) : Z := Z.of_nat (List.length arr).

(** [arr[i]] for a non-negative integer [i]; [None] is [undefined]. *)
Definition get (arr : list string) (i : nat) : option string :=
  nth_error arr i.

(** [arr[i]] at a place where the program has already checked
    [0 <= i < arr.length]. *)
Definition at_ (arr : list string) (i : nat) : string :=
  nth i arr "undefined".

(** [new Set(arr).size]: the number of distinct elements. *)
Definition setSize (arr : list string) : Z :=
  Z.of_nat (List.length (nodup string_dec arr)).

(** Template-literal rendering of a non-negative integer. *)
Definition showNat (n : nat) : string :=
  NilZero.string_of_uint (Nat.to_uint n).

(** [buf.toString('hex')]: two lower-case hexadecimal digits per byte. *)
Definition hexDigit (d : N) : ascii :=
  if (d <? 10)%N then ascii_of_N (48 + d) else ascii_of_N (87 + d).

Definition hexByte (b : Byte.byte) : string :=
  let n := Byte.to_N b in
  String (hexDigit (n / 16)) (String (hexDigit (n mod 16)) EmptyString).

Definition toHex (buf : list Byte.byte) : string :=
  String.concat "" (map hexByte buf).

(** The line feed written [\n] in a JavaScript string literal. *)
Definition LF : string := String (ascii_of_nat 10) EmptyString.

End JS.

(** ** The host: Node.js functions the program calls but does not define *)

(** [hmacSha256Hex key message] is
    [crypto.createHmac('sha256', key).update(message).digest('hex')],
    [trim] is [String.prototype.trim], and [parseInt10 s] is
    [parseInt(s, 10)] with [None] standing for [NaN]. *)
Record Host := mkHost {
  hmacSha256Hex : string -> string -> string;
  trim : string -> string;
  parseInt10 : string -> option Z
}.

(** What one run draws from the host's random sources: the buffer returned
    by [crypto.randomBytes(32)] and the value of
    [Math.floor(Math.random() * this.moves.length)]. *)
Record Entropy := mkEntropy {
  randomBytes32 : list Byte.byte;
  randomIndex : nat
}.

(** The table object handed to [cli-table3]; its rendering is the library's
    business, its content is the program's. *)
Record Table := mkTable {
  head : list string;
  colWidths : list Z;
  headStyle : list string;
  rows : list (list string)
}.

(** Observable effects of a run, in order. *)
Inductive Event :=
| RandomBytes (n : Z) (buf : list Byte.byte)
| MathRandom (scaledFloor : nat)
| ConsoleLog (line : string)
| ConsoleLogTable (t : Table)
| ConsoleError (line : string)
| OpenStdin
| Uncaught (error : string)
| ProcessExit (code : Z).

(** ** class CryptoGenerate *)

Module CryptoGenerate.

(** [static generateKey()] on the buffer the random source returned. *)
Definition generateKey (buf : list Byte.byte) : string := JS.toHex buf.

(** [static generateHMAC(key, message)] *)
Definition generateHMAC (host : Host) (key message : string) : string :=
  hmacSha256Hex host key message.

End CryptoGenerate.

(** ** class PlayRules *)

Module PlayRules.

Record t := mk { moves : list string; numMoves : Z }.

(** [constructor(moves)] *)
Definition new (moves : list string) : t :=
  {| moves := moves; numMoves := JS.length moves |}.

(** [determineWinner(userMove, computerMove)] *)
Definition determineWinner (this : t) (userMove computerMove : string)
  : string :=
  let userIndex := JS.indexOf (moves this) userMove in
  let computerIndex := JS.indexOf (moves this) computerMove in
  if userIndex =? computerIndex then "Draw"
  else
    let half := numMoves this / 2 in
    if ((computerIndex >? userIndex) && (computerIndex <=? userIndex + half))
       || ((computerIndex <? userIndex)
           && (computerIndex + numMoves this <=? userIndex + half))
    then "Computer wins"
    else "You win".

End PlayRules.

(** ** class HelpTable *)

Module HelpTable.

Record t := mk { moves : list string; numMoves : Z }.

(** [constructor(moves)] *)
Definition new (moves : list string) : t :=
  {| moves := moves; numMoves := JS.length moves |}.

(** The body of the inner loop of [display]: the cell pushed for row [i]
    (the computer's move) and column [j] (the user's move). *)
Definition cell (this : t) (i j : Z) : string :=
  if i =? j then "Draw"
  else
    let half := numMoves this / 2 in
    if ((j >? i) && (j <=? i + half))
       || ((j <? i) && (j + numMoves this <=? i + half))
    then "Win"
    else "Lose".

(** The indices a loop [for (let k = 0; k < n; k++)] runs through. *)
Definition upto (n : Z) : list nat := seq 0 (Z.to_nat n).

(** The row built by one pass of the outer loop. *)
Definition row (this : t) (i : nat) : list string :=
  JS.at_ (moves this) i
  :: map (fun j => cell this (Z.of_nat i) (Z.of_nat j)) (upto (numMoves this)).

(** The table as it stands when [display] prints it. *)
Definition table (this : t) : Table :=
  {| head := "v PC\User >" :: moves this;
     colWidths := repeat 10 (List.length (moves this) + 1);
     headStyle := ["cyan"];
     rows := map (row this) (upto (numMoves this)) |}.

Definition banner : string :=
  "The results are from the user's point of view. For example, 'Rock' wins against 'Scissors' but loses to 'Paper'."
  ++ JS.LF.

(** [display()] *)
Definition display (this : t) : list Event :=
  [ConsoleLog banner; ConsoleLogTable (table this)].

End HelpTable.

(** ** class RockPaperScissorsGame *)

Module RockPaperScissorsGame.

Record t := mk { moves : list string; rules : PlayRules.t }.

(** [constructor(moves)] *)
Definition new (moves : list string) : t :=
  {| moves := moves; rules := PlayRules.new moves |}.

(** [this.moves.forEach((move, index) => console.log(`${index + 1} - ${move}`))]
    starting at position [index]. *)
Fixpoint listMoves (moves : list string) (index : nat) : list Event :=
  match moves with
  | [] => []
  | move :: rest =>
      ConsoleLog (JS.showNat (index + 1) ++ " - " ++ move)
      :: listMoves rest (S index)
  end.

(** The menu printed by [start] and again after an invalid selection. *)
Definition menu (this : t) : list Event :=
  ConsoleLog "Available moves:"
  :: listMoves (moves this) 0
  ++ [ConsoleLog "0 - exit"; ConsoleLog "? - help"].

(** The listener registered by [getUserMove(computerMove, key)], applied to
    one chunk [d] (already converted by [d.toString()]). *)
Definition onData (host : Host) (this : t) (computerMove key : string)
  (d : string) : list Event :=
  let input := trim host d in
  if String.eqb input "0" then
    [ConsoleLog "Exiting the game."; ProcessExit 0]
  else if String.eqb input "?" then
    HelpTable.display (HelpTable.new (moves this))
    ++ [ConsoleLog "Enter your move:"]
  else
    match parseInt10 host input with
    | Some n =>
        let moveIndex := n - 1 in
        if (moveIndex >=? 0) && (moveIndex <? JS.length (moves this)) then
          let userMove := JS.at_ (moves this) (Z.to_nat moveIndex) in
          [ConsoleLog ("Your move: " ++ userMove);
           ConsoleLog ("Computer move: " ++ computerMove);
           ConsoleLog (PlayRules.determineWinner (rules this) userMove
                         computerMove);
           ConsoleLog ("HMAC key: " ++ key);
           ProcessExit 0]
        else ConsoleLog "Invalid move. Please try again." :: menu this
    | None => ConsoleLog "Invalid move. Please try again." :: menu this
    end.

(** Whether a batch of events ends the process. *)
Definition exits (evs : list Event) : bool :=
  existsb (fun e => match e with ProcessExit _ => true | _ => false end) evs.

(** The event loop: chunks arriving on stdin are handed to the listener one
    after the other until it exits the process or stdin is exhausted. *)
Fixpoint listen (handler : string -> list Event) (chunks : list string)
  : list Event :=
  match chunks with
  | [] => []
  | d :: rest =>
      let evs := handler d in
      if exits evs then evs else evs ++ listen handler rest
  end.

(** [getUserMove(computerMove, key)] *)
Definition getUserMove (host : Host) (this : t) (computerMove key : string)
  (chunks : list string) : list Event :=
  OpenStdin :: listen (onData host this computerMove key) chunks.

(** [start()]; when the drawn index misses the array, [computerMove] is
    [undefined] and [update(undefined)] throws. *)
Definition start (host : Host) (this : t) (rnd : Entropy)
  (chunks : list string) : list Event :=
  let key := CryptoGenerate.generateKey (randomBytes32 rnd) in
  RandomBytes 32 (randomBytes32 rnd)
  :: MathRandom (randomIndex rnd)
  :: match JS.get (moves this) (randomIndex rnd) with
     | None => [Uncaught "TypeError"]
     | Some computerMove =>
         let hmac := CryptoGenerate.generateHMAC host key computerMove in
         ConsoleLog ("HMAC: " ++ hmac)
         :: menu this
         ++ getUserMove host this computerMove key chunks
     end.

End RockPaperScissorsGame.

(** ** The script body *)

Definition usageError : list Event :=
  [ConsoleError "Error: You must provide an odd number of non-repeating strings (≥ 3) as command line arguments.";
   ConsoleError "Example: node game.js rock paper scissors";
   ProcessExit 1].

(** The condition under which the script refuses its arguments;
    [args] is [process.argv.slice(2)]. *)
Definition argsRejected (args : list string) : bool :=
  (JS.length args <? 3) || (JS.length args mod 2 =? 0)
  || negb (JS.setSize args =? JS.length args).

Definition main (host : Host) (args : list string) (rnd : Entropy)
  (chunks : list string) : list Event :=
  if argsRejected args then usageError
  else
    let game := RockPaperScissorsGame.new args in
    RockPaperScissorsGame.start host game rnd chunks.

(** ** A host to run the model on

    A stand-in for Node.js on ASCII input, used to evaluate the program on
    concrete runs: [trim] strips blanks, tabs and line ends, [parseInt10]
    reads an optional sign and the leading decimal digits, and the keyed
    digest is replaced by an injective pairing of key and message. *)

Module SampleHost.

Definition isSpace (c : ascii) : bool :=
  let n := nat_of_ascii c in
  ((9 <=? n)%nat && (n <=? 13)%nat) || (n =? 32)%nat.

Fixpoint dropSpace (s : string) : string :=
  match s with
  | String c rest => if isSpace c then dropSpace rest else s
  | EmptyString => EmptyString
  end.

Fixpoint dropSpaceEnd (s : string) : string :=
  match s with
  | String c rest =>
      match dropSpaceEnd rest with
      | EmptyString => if isSpace c then EmptyString else String c EmptyString
      | kept => String c kept
      end
  | EmptyString => EmptyString
  end.

Definition trim (s : string) : string := dropSpaceEnd (dropSpace s).

Definition digit (c : ascii) : option Z :=
  let n := Z.of_nat (nat_of_ascii c) in
  if (48 <=? n) && (n <=? 57) then Some (n - 48) else None.

Fixpoint digits (s : string) (acc : option Z) : option Z :=
  match s with
  | String c rest =>
      match digit c with
      | Some d =>
          digits rest (Some (10 * match acc with Some a => a | None => 0 end + d))
      | None => acc
      end
  | EmptyString => acc
  end.

Definition parseInt10 (s : string) : option Z :=
  match s with
  | String "-" rest => option_map Z.opp (digits rest None)
  | String "+" rest => digits rest None
  | _ => digits s None
  end.

Definition keyed (key message : string) : string :=
  JS.showNat (String.length key) ++ ":" ++ key ++ message.

Definition host : Host :=
  mkHost keyed trim parseInt10.

Definition entropy : Entropy :=
  {| randomBytes32 := repeat Byte.xa7 32; randomIndex := 2 |}.

End SampleHost.

(** ** The configured move set

    The data model's invariant on the ordered list of moves: distinct
    labels, odd length, at least three. *)
Definition MoveSet (moves : list string) : Prop :=
  NoDup moves /\ 3 <= JS.length moves /\ JS.length moves mod 2 = 1.

(** The modular phrasing of the rule, as the specification words it: with
    [d = (c - u) mod N], a draw when [d = 0], the opponent's win when
    [1 <= d <= half], the human's otherwise. *)
Definition winnerModular (N u c : Z) : string :=
  let half := N / 2 in
  let d := (c - u) mod N in
  if d =? 0 then "Draw"
  else if (1 <=? d) && (d <=? half) then "Computer wins"
  else "You win".

(** The help table's wording of an outcome, from the user's side. *)
Definition fromUserSide (outcome : string) : string :=
  if String.eqb outcome "Draw" then "Draw"
  else if String.eqb outcome "You win" then "Win"
  else "Lose".

(** Modelled from the spec: [verify(secretKey, move, tag)] is not part of
    the program (the human recomputes the digest by other means); it
    recomputes the keyed digest and returns true iff it equals [tag]. *)
Definition verify (host : Host) (secretKey move tag : string) : bool :=
  String.eqb (CryptoGenerate.generateHMAC host secretKey move) tag.

(** The number of elements of [l] that satisfy [p]. *)
Definition countIf {A} (p : A -> bool) (l : list A) : nat :=
  List.length (filter p l).

(** The opponent's window: [c] is one of the [N / 2] positions that follow
    [u] cyclically, in the two-disjunct form of the source. *)
Definition inWindow (N u c : Z) : Prop :=
  (c > u /\ c <= u + N / 2) \/ (c < u /\ c + N <= u + N / 2).

(** The cell of the printed table in row [i], under the column of the
    user's move [j] (column [0] holds the row's label). *)
Definition printedCell (t : Table) (i j : nat) : string :=
  nth (S j) (nth i (rows t) []) "".

(** A run draws no key and shows no tag. *)
Definition commitmentFree (trace : list Event) : Prop :=
  forall e, In e trace ->
    match e with
    | RandomBytes _ _ | MathRandom _ | ConsoleLog _ => False
    | _ => True
    end.

(** The classic three-move and five-move games. *)
Definition rps : list string := ["Rock"; "Paper"; "Scissors"].
Definition rpsls : list string := ["Rock"; "Spock"; "Paper"; "Lizard"; "Scissors"].

(** A move list of any size, to show the invariant is met at every odd
    size: the label at position [n] is [n] strokes. *)
Fixpoint tally (n : nat) : string :=
  match n with
  | O => EmptyString
  | S k => String "|" (tally k)
  end.

Definition tallies (n : nat) : list string := map tally (seq 0 n).

(** Whether the chunk [d] makes the listener take its last branch with a
    move number in range: it is neither [0] nor [?] once trimmed, and
    [parseInt] reads a number [n] from it with [0 <= n - 1 < moves.length]. *)
Definition isSelection (host : Host) (this : RockPaperScissorsGame.t)
  (d : string) : bool :=
  let input := trim host d in
  negb (String.eqb input "0") && negb (String.eqb input "?")
  && match parseInt10 host input with
     | Some n =>
         (n - 1 >=? 0)
         && (n - 1 <? JS.length (RockPaperScissorsGame.moves this))
     | None => false
     end.

(** The characters [toString('hex')] produces. *)
Definition isHexDigit (c : ascii) : bool :=
  let n := N_of_ascii c in
  ((48 <=? n) && (n <=? 57) || (97 <=? n) && (n <=? 102))%N.

(** Every character of a string satisfies [p]. *)
Fixpoint allChars (p : ascii -> bool) (s : string) : bool :=
  match s with
  | EmptyString => true
  | String c rest => p c && allChars p rest
  end.

(** Case analysis on the integer comparisons of a goal. *)
Ltac split_bools :=
  repeat match goal with
    | |- context [?a =? ?b] => destruct (Z.eqb_spec a b)
    | |- context [?a >? ?b] => rewrite (Z.gtb_ltb a b)
    | |- context [?a <? ?b] => destruct (Z.ltb_spec a b)
    | |- context [?a <=? ?b] => destruct (Z.leb_spec a b)
    end;
  cbn [andb orb negb].

(** * Properties *)

(** ** Array lookups *)

Lemma indexOfFrom_absent (arr : list string) (x : string) :
  ~ In x arr -> forall k, JS.indexOfFrom arr x k = -1.
Proof.
  induction arr as [|y rest IH]; intros Hx k; simpl; [reflexivity|].
  destruct (String.eqb_spec y x) as [->|_].
  - exfalso. apply Hx. now left.
  - apply IH. intros Hin. apply Hx. now right.
Qed.

Lemma indexOfFrom_range (arr : list string) (x : string) :
  In x arr -> forall k, k <= JS.indexOfFrom arr x k < k + JS.length arr.
Proof.
  unfold JS.length.
  induction arr as [|y rest IH]; intros Hx k; [contradiction|].
  cbn [JS.indexOfFrom List.length].
  destruct (String.eqb_spec y x) as [->|Hne].
  - lia.
  - destruct Hx as [->|Hx]; [congruence|].
    specialize (IH Hx (k + 1)). lia.
Qed.

Lemma indexOfFrom_nth (arr : list string) :
  NoDup arr ->
  forall (i : nat) (k : Z), (i < List.length arr)%nat ->
    JS.indexOfFrom arr (JS.at_ arr i) k = k + Z.of_nat i.
Proof.
  unfold JS.at_.
  induction 1 as [|y rest Hy _ IH]; intros i k Hi; [simpl in Hi; lia|].
  destruct i as [|i]; cbn [JS.indexOfFrom nth].
  - rewrite String.eqb_refl. lia.
  - simpl in Hi.
    destruct (String.eqb_spec y (nth i rest "undefined")) as [E|_].
    + exfalso. apply Hy. rewrite E. apply nth_In. lia.
    + rewrite IH by lia. lia.
Qed.

Lemma indexOf_absent (arr : list string) (x : string) :
  ~ In x arr -> JS.indexOf arr x = -1.
Proof. intros H. now apply indexOfFrom_absent. Qed.

Lemma indexOf_range (arr : list string) (x : string) :
  In x arr -> 0 <= JS.indexOf arr x < JS.length arr.
Proof. intros H. apply (indexOfFrom_range arr x H 0). Qed.

Lemma indexOf_at (arr : list string) (i : nat) :
  NoDup arr -> (i < List.length arr)%nat ->
  JS.indexOf arr (JS.at_ arr i) = Z.of_nat i.
Proof. intros Hnd Hi. unfold JS.indexOf. now rewrite indexOfFrom_nth. Qed.


(** ** The rule on indices *)

Lemma determineWinner_spec (this : PlayRules.t) (userMove computerMove : string) :
  let u := JS.indexOf (PlayRules.moves this) userMove in
  let c := JS.indexOf (PlayRules.moves this) computerMove in
  let N := PlayRules.numMoves this in
  (u = c /\ PlayRules.determineWinner this userMove computerMove = "Draw")
  \/ (u <> c /\ inWindow N u c
      /\ PlayRules.determineWinner this userMove computerMove = "Computer wins")
  \/ (u <> c /\ ~ inWindow N u c
      /\ PlayRules.determineWinner this userMove computerMove = "You win").
Proof.
  intros u c N. unfold PlayRules.determineWinner, inWindow.
  fold u c N. split_bools;
    first [ left; split; [lia | reflexivity]
          | right; left; split; [lia | split; [lia | reflexivity]]
          | right; right; split; [lia | split; [lia | reflexivity]] ].
Qed.

Lemma determineWinner_draw (this : PlayRules.t) (a b : string) :
  PlayRules.determineWinner this a b = "Draw"
  <-> JS.indexOf (PlayRules.moves this) a = JS.indexOf (PlayRules.moves this) b.
Proof.
  destruct (determineWinner_spec this a b) as [[U E]|[(U & W & E)|(U & W & E)]];
    rewrite E; intuition (discriminate || congruence).
Qed.

Lemma determineWinner_computer (this : PlayRules.t) (a b : string) :
  PlayRules.determineWinner this a b = "Computer wins"
  <-> JS.indexOf (PlayRules.moves this) a <> JS.indexOf (PlayRules.moves this) b
      /\ inWindow (PlayRules.numMoves this)
           (JS.indexOf (PlayRules.moves this) a)
           (JS.indexOf (PlayRules.moves this) b).
Proof.
  destruct (determineWinner_spec this a b) as [[U E]|[(U & W & E)|(U & W & E)]];
    rewrite E; intuition (discriminate || congruence).
Qed.

Lemma determineWinner_you (this : PlayRules.t) (a b : string) :
  PlayRules.determineWinner this a b = "You win"
  <-> JS.indexOf (PlayRules.moves this) a <> JS.indexOf (PlayRules.moves this) b
      /\ ~ inWindow (PlayRules.numMoves this)
             (JS.indexOf (PlayRules.moves this) a)
             (JS.indexOf (PlayRules.moves this) b).
Proof.
  destruct (determineWinner_spec this a b) as [[U E]|[(U & W & E)|(U & W & E)]];
    rewrite E; intuition (discriminate || congruence).
Qed.

Lemma odd_half (N : Z) : N mod 2 = 1 -> N = 2 * (N / 2) + 1.
Proof. intros H. rewrite (Z.div_mod N 2) at 1 by lia. lia. Qed.

(** For an odd number of moves, exactly one of two distinct positions lies
    in the other's window. *)
Lemma window_flip (N u c : Z) :
  N mod 2 = 1 -> 0 <= u < N -> 0 <= c < N -> u <> c ->
  (~ inWindow N u c <-> inWindow N c u).
Proof.
  unfold inWindow. intros HN Hu Hc Hne.
  pose proof (odd_half N HN). lia.
Qed.

(** The cyclic distance from [u] to [c]. *)
Lemma mod_diff (N u c : Z) :
  0 <= u < N -> 0 <= c < N ->
  (c - u) mod N = if c <? u then c - u + N else c - u.
Proof.
  intros Hu Hc. destruct (Z.ltb_spec c u).
  - symmetry. apply Z.mod_unique with (q := -1); lia.
  - apply Z.mod_small. lia.
Qed.

(** The modular form decides by the same window. *)
Lemma winnerModular_spec (N u c : Z) :
  0 <= u < N -> 0 <= c < N ->
  (u = c /\ winnerModular N u c = "Draw")
  \/ (u <> c /\ inWindow N u c /\ winnerModular N u c = "Computer wins")
  \/ (u <> c /\ ~ inWindow N u c /\ winnerModular N u c = "You win").
Proof.
  intros Hu Hc. unfold winnerModular, inWindow.
  rewrite (mod_diff N u c Hu Hc).
  destruct (Z.ltb_spec c u); split_bools;
    first [ left; split; [lia | reflexivity]
          | right; left; split; [lia | split; [lia | reflexivity]]
          | right; right; split; [lia | split; [lia | reflexivity]] ].
Qed.

(** ** The guard of the script *)

Lemma nodup_length_le (l : list string) :
  (List.length (nodup string_dec l) <= List.length l)%nat.
Proof.
  induction l as [|a l IH]; simpl; [lia|].
  destruct (in_dec string_dec a l); simpl; lia.
Qed.

Lemma setSize_full (l : list string) :
  JS.setSize l = JS.length l <-> NoDup l.
Proof.
  unfold JS.setSize, JS.length. split.
  - intros H. apply Nat2Z.inj in H.
    induction l as [|a l IH]; [constructor|].
    simpl in H. pose proof (nodup_length_le l) as Hle.
    destruct (in_dec string_dec a l) as [Hin|Hout]; simpl in H; [lia|].
    constructor; [assumption|]. apply IH. lia.
  - intros H. now rewrite (nodup_fixed_point string_dec H).
Qed.

Lemma argsRejected_false (args : list string) :
  argsRejected args = false <-> MoveSet args.
Proof.
  unfold argsRejected, MoveSet. rewrite <- setSize_full.
  pose proof (Z.mod_pos_bound (JS.length args) 2 ltac:(lia)) as Hm.
  rewrite !orb_false_iff, negb_false_iff, Z.ltb_ge, !Z.eqb_neq, Z.eqb_eq.
  intuition lia.
Qed.

Lemma tally_length (n : nat) : String.length (tally n) = n.
Proof. induction n as [|n IH]; simpl; congruence. Qed.

(** Every odd size from three on has a configurable move set. *)
Lemma MoveSet_at_every_odd_size (k : nat) : MoveSet (tallies (2 * k + 3)).
Proof.
  unfold MoveSet, tallies, JS.length. rewrite length_map, length_seq.
  split; [|split].
  - apply Finite.Injective_map_NoDup; [|apply seq_NoDup].
    intros n m E. apply (f_equal String.length) in E.
    now rewrite !tally_length in E.
  - lia.
  - replace (Z.of_nat (2 * k + 3)) with (1 + (Z.of_nat k + 1) * 2) by lia.
    now rewrite Z.mod_add.
Qed.

(** ** Counting over positions *)

Section Counting.

Context {A : Type}.

Lemma countIf_app (p : A -> bool) (l l' : list A) :
  countIf p (l ++ l') = (countIf p l + countIf p l')%nat.
Proof. unfold countIf. now rewrite filter_app, length_app. Qed.

Lemma countIf_all (p : A -> bool) (l : list A) :
  (forall x, In x l -> p x = true) -> countIf p l = List.length l.
Proof.
  unfold countIf. induction l as [|x l IH]; intros H; [reflexivity|].
  simpl. rewrite (H x (or_introl eq_refl)). simpl.
  f_equal. apply IH. intros y Hy. apply H. now right.
Qed.

Lemma countIf_none (p : A -> bool) (l : list A) :
  (forall x, In x l -> p x = false) -> countIf p l = 0%nat.
Proof.
  unfold countIf. induction l as [|x l IH]; intros H; [reflexivity|].
  simpl. rewrite (H x (or_introl eq_refl)).
  apply IH. intros y Hy. apply H. now right.
Qed.

Lemma countIf_map {B : Type} (f : B -> A) (p : A -> bool) (l : list B) :
  countIf p (map f l) = countIf (fun x => p (f x)) l.
Proof.
  unfold countIf. induction l as [|x l IH]; [reflexivity|].
  simpl. destruct (p (f x)); simpl; now rewrite IH.
Qed.

End Counting.

(** A list is the list of its elements by position. *)
Lemma by_position (l : list string) :
  l = map (JS.at_ l) (seq 0 (List.length l)).
Proof.
  unfold JS.at_. induction l as [|x l IH]; [reflexivity|].
  cbn [List.length seq map nth]. f_equal.
  rewrite <- seq_shift, map_map. exact IH.
Qed.

(** Counting the positions below [n] that fall in one of two successive
    ranges [[a, b)] and [[c, d)]. *)
Lemma count_two_ranges (p : nat -> bool) (n a b c d : nat) :
  (a <= b <= c)%nat -> (c <= d <= n)%nat ->
  (forall i, (i < n)%nat ->
     (p i = true <-> (a <= i < b)%nat \/ (c <= i < d)%nat)) ->
  countIf p (seq 0 n) = ((b - a) + (d - c))%nat.
Proof.
  intros Hab Hcd Hp.
  assert (Hf : forall i, (i < n)%nat ->
             ~ ((a <= i < b)%nat \/ (c <= i < d)%nat) -> p i = false).
  { intros i Hi Hno. destruct (p i) eqn:E; [|reflexivity].
    exfalso. apply Hno, Hp; assumption. }
  replace n with (a + ((b - a) + ((c - b) + ((d - c) + (n - d)))))%nat
    at 1 by lia.
  rewrite !seq_app, !countIf_app.
  rewrite (countIf_none p (seq 0 a)),
          (countIf_all p (seq (0 + a) (b - a))),
          (countIf_none p (seq (0 + a + (b - a)) (c - b))),
          (countIf_all p (seq (0 + a + (b - a) + (c - b)) (d - c))),
          (countIf_none p (seq (0 + a + (b - a) + (c - b) + (d - c)) (n - d)));
    rewrite ?length_seq; try lia;
    intros i Hi; apply in_seq in Hi;
    first [ apply Hp; lia | apply Hf; lia ].
Qed.

(** ** The help table's cells *)

Lemma cell_spec (this : HelpTable.t) (i j : Z) :
  let N := HelpTable.numMoves this in
  (i = j /\ HelpTable.cell this i j = "Draw")
  \/ (i <> j /\ inWindow N i j /\ HelpTable.cell this i j = "Win")
  \/ (i <> j /\ ~ inWindow N i j /\ HelpTable.cell this i j = "Lose").
Proof.
  intros N. unfold HelpTable.cell, inWindow. fold N. split_bools;
    first [ left; split; [lia | reflexivity]
          | right; left; split; [lia | split; [lia | reflexivity]]
          | right; right; split; [lia | split; [lia | reflexivity]] ].
Qed.

Lemma nth_map_seq {B : Type} (f : nat -> B) (n i : nat) (d : B) :
  (i < n)%nat -> nth i (map f (seq 0 n)) d = f i.
Proof.
  intros Hi. rewrite (nth_indep _ d (f 0%nat)) by now rewrite length_map, length_seq.
  rewrite map_nth, seq_nth by assumption. reflexivity.
Qed.

Lemma printedCell_table (moves : list string) (i j : nat) :
  (i < List.length moves)%nat -> (j < List.length moves)%nat ->
  printedCell (HelpTable.table (HelpTable.new moves)) i j
  = HelpTable.cell (HelpTable.new moves) (Z.of_nat i) (Z.of_nat j).
Proof.
  intros Hi Hj. unfold printedCell, HelpTable.table, HelpTable.upto.
  cbn [rows HelpTable.numMoves HelpTable.new]. unfold JS.length.
  rewrite Nat2Z.id, nth_map_seq by assumption.
  unfold HelpTable.row, HelpTable.upto.
  cbn [nth HelpTable.numMoves HelpTable.new]. unfold JS.length.
  rewrite Nat2Z.id. now rewrite nth_map_seq.
Qed.

(** ** The cycle rule on a configured move set *)

Section CycleRules.

Variable moves : list string.
Hypothesis configured : MoveSet moves.

Let rules := PlayRules.new moves.
Let N := JS.length moves.

(** C1: for an odd number [N >= 3] of distinct moves and positions [u], [c]
    below [N], the disjunctive rule of [determineWinner] on the moves at
    [u] and [c] gives the outcome of the modular form on [(c - u) mod N]. *)
Theorem disjunctive_rule_is_modular (u c : nat) :
  (u < List.length moves)%nat -> (c < List.length moves)%nat ->
  PlayRules.determineWinner rules (JS.at_ moves u) (JS.at_ moves c)
  = winnerModular N (Z.of_nat u) (Z.of_nat c).
Proof.
  intros Hu Hc. destruct configured as (Hnd & _ & _).
  pose proof (determineWinner_spec rules (JS.at_ moves u) (JS.at_ moves c)) as S.
  pose proof (winnerModular_spec N (Z.of_nat u) (Z.of_nat c)) as M.
  cbn zeta in S. cbn [rules PlayRules.moves PlayRules.numMoves PlayRules.new] in S.
  rewrite !indexOf_at in S by assumption. fold N in S.
  assert (Hu' : 0 <= Z.of_nat u < N) by (unfold N, JS.length; lia).
  assert (Hc' : 0 <= Z.of_nat c < N) by (unfold N, JS.length; lia).
  specialize (M Hu' Hc').
  destruct S as [[U E]|[(U & W & E)|(U & W & E)]]; rewrite E;
    destruct M as [[U' E']|[(U' & W' & E')|(U' & W' & E')]]; rewrite E';
    solve [reflexivity | contradiction].
Qed.

Lemma member_index (X : string) :
  In X moves -> 0 <= JS.indexOf moves X < N.
Proof. apply indexOf_range. Qed.

(** C2: on a configured move set, a move draws against itself, and [A]
    wins against [B] exactly when [B] loses against [A]; the two orderings
    are never both wins nor both losses. *)
Theorem winner_antisymmetric (A B : string) :
  In A moves -> In B moves ->
  PlayRules.determineWinner rules A A = "Draw"
  /\ (PlayRules.determineWinner rules A B = "You win"
      <-> PlayRules.determineWinner rules B A = "Computer wins")
  /\ ~ (PlayRules.determineWinner rules A B = "You win"
        /\ PlayRules.determineWinner rules B A = "You win")
  /\ ~ (PlayRules.determineWinner rules A B = "Computer wins"
        /\ PlayRules.determineWinner rules B A = "Computer wins").
Proof.
  intros HA HB. destruct configured as (_ & _ & Hodd).
  pose proof (member_index A HA) as Hu. pose proof (member_index B HB) as Hc.
  rewrite !determineWinner_you, !determineWinner_computer, determineWinner_draw.
  cbn [rules PlayRules.moves PlayRules.numMoves PlayRules.new]. fold N.
  set (u := JS.indexOf moves A) in *. set (c := JS.indexOf moves B) in *.
  split; [reflexivity|].
  destruct (Z.eq_dec u c) as [E|E]; [intuition congruence|].
  pose proof (window_flip N u c Hodd Hu Hc E) as F.
  assert (E' : c <> u) by congruence.
  tauto.
Qed.

(** The outcome against the move at position [c], by position. *)
Lemma computer_wins_at (X : string) (c : nat) :
  In X moves -> (c < List.length moves)%nat ->
  (String.eqb (PlayRules.determineWinner rules X (JS.at_ moves c))
     "Computer wins" = true
   <-> inWindow N (JS.indexOf moves X) (Z.of_nat c)).
Proof.
  intros HX Hc. destruct configured as (Hnd & _ & _).
  rewrite String.eqb_eq, determineWinner_computer.
  cbn [rules PlayRules.moves PlayRules.numMoves PlayRules.new]. fold N.
  rewrite indexOf_at by assumption.
  unfold inWindow. intuition lia.
Qed.

Lemma you_win_at (X : string) (c : nat) :
  In X moves -> (c < List.length moves)%nat ->
  (String.eqb (PlayRules.determineWinner rules X (JS.at_ moves c))
     "You win" = true
   <-> JS.indexOf moves X <> Z.of_nat c
       /\ ~ inWindow N (JS.indexOf moves X) (Z.of_nat c)).
Proof.
  intros HX Hc. destruct configured as (Hnd & _ & _).
  rewrite String.eqb_eq, determineWinner_you.
  cbn [rules PlayRules.moves PlayRules.numMoves PlayRules.new]. fold N.
  rewrite indexOf_at by assumption. reflexivity.
Qed.

(** C3: on a configured move set, a member move [A] wins against exactly
    [floor(N/2)] members and loses against exactly [floor(N/2)] members,
    which together are the [N - 1] other moves. *)
Theorem beats_half_loses_half (A : string) :
  In A moves ->
  countIf (fun X => String.eqb (PlayRules.determineWinner rules A X) "You win")
    moves = Z.to_nat (N / 2)
  /\ countIf (fun X => String.eqb (PlayRules.determineWinner rules A X)
                         "Computer wins")
       moves = Z.to_nat (N / 2)
  /\ (Z.to_nat (N / 2) + Z.to_nat (N / 2) = List.length moves - 1)%nat.
Proof.
  intros HA. pose proof (member_index A HA) as Hu.
  destruct configured as (Hnd & H3 & Hodd).
  pose proof (odd_half N Hodd) as Hh.
  assert (HN : N = Z.of_nat (List.length moves)) by reflexivity.
  set (u := JS.indexOf moves A) in *. set (h := N / 2) in *.
  rewrite (by_position moves) at 1 2. rewrite !countIf_map.
  destruct (Z_le_gt_dec u h) as [Hlow|Hhigh].
  - repeat split; [| |lia].
    + rewrite (count_two_ranges _ _ 0 (Z.to_nat u) (Z.to_nat (u + h + 1))
                 (List.length moves)); [lia|lia|lia|].
      intros i Hi. rewrite (you_win_at A i HA Hi). fold u. unfold inWindow.
      fold h. lia.
    + rewrite (count_two_ranges _ _ 0 0 (Z.to_nat (u + 1))
                 (Z.to_nat (u + h + 1))); [lia|lia|lia|].
      intros i Hi. rewrite (computer_wins_at A i HA Hi). fold u.
      unfold inWindow. fold h. lia.
  - repeat split; [| |lia].
    + rewrite (count_two_ranges _ _ (Z.to_nat (u + h + 1 - N)) (Z.to_nat u)
                 (Z.to_nat u) (Z.to_nat u)); [lia|lia|lia|].
      intros i Hi. rewrite (you_win_at A i HA Hi). fold u. unfold inWindow.
      fold h. lia.
    + rewrite (count_two_ranges _ _ 0 (Z.to_nat (u + h + 1 - N))
                 (Z.to_nat (u + 1)) (List.length moves)); [lia|lia|lia|].
      intros i Hi. rewrite (computer_wins_at A i HA Hi). fold u.
      unfold inWindow. fold h. lia.
Qed.

(** C4: on a configured move set, the cell the help table prints in the
    row of the computer's move [i] and the column of the user's move [j] is
    the outcome of [determineWinner(moves[j], moves[i])] worded from the
    user's side: Draw for a draw, Win for 'You win', Lose for
    'Computer wins'. *)
Theorem help_table_agrees_with_rule (i j : nat) :
  (i < List.length moves)%nat -> (j < List.length moves)%nat ->
  let shown := printedCell (HelpTable.table (HelpTable.new moves)) i j in
  let outcome :=
    PlayRules.determineWinner rules (JS.at_ moves j) (JS.at_ moves i) in
  shown = fromUserSide outcome
  /\ (shown = "Draw" <-> outcome = "Draw")
  /\ (shown = "Win" <-> outcome = "You win")
  /\ (shown = "Lose" <-> outcome = "Computer wins").
Proof.
  intros Hi Hj shown outcome. destruct configured as (Hnd & _ & Hodd).
  unfold shown. rewrite printedCell_table by assumption.
  pose proof (cell_spec (HelpTable.new moves) (Z.of_nat i) (Z.of_nat j)) as C.
  pose proof (determineWinner_spec rules (JS.at_ moves j) (JS.at_ moves i)) as S.
  cbn zeta in C, S.
  cbn [rules PlayRules.moves PlayRules.numMoves PlayRules.new
       HelpTable.numMoves HelpTable.new] in C, S.
  rewrite !indexOf_at in S by assumption. fold outcome in S. fold N in C, S.
  assert (Hi' : 0 <= Z.of_nat i < N) by (unfold N, JS.length; lia).
  assert (Hj' : 0 <= Z.of_nat j < N) by (unfold N, JS.length; lia).
  destruct C as [[U E]|[(U & W & E)|(U & W & E)]]; rewrite E;
    destruct S as [[U' E']|[(U' & W' & E')|(U' & W' & E')]]; rewrite E';
    try (exfalso; congruence);
    try (apply (window_flip N _ _ Hodd Hi' Hj' U) in W'; contradiction);
    try (apply (window_flip N _ _ Hodd Hi' Hj' U) in W; contradiction);
    repeat split; try reflexivity; discriminate.
Qed.

End CycleRules.

(** ** Fixtures *)

(** C8: with the moves Rock, Paper, Scissors, Rock wins against Scissors,
    loses against Paper and draws against itself. *)
Theorem rock_paper_scissors_fixture :
  PlayRules.determineWinner (PlayRules.new rps) "Rock" "Scissors" = "You win"
  /\ PlayRules.determineWinner (PlayRules.new rps) "Rock" "Paper"
     = "Computer wins"
  /\ PlayRules.determineWinner (PlayRules.new rps) "Rock" "Rock" = "Draw".
Proof. repeat split; reflexivity. Qed.

(** C9: with the moves Rock, Spock, Paper, Lizard, Scissors (half = 2),
    Rock wins against Lizard and loses against Spock. *)
Theorem five_move_fixture :
  JS.length rpsls / 2 = 2
  /\ PlayRules.determineWinner (PlayRules.new rpsls) "Rock" "Lizard" = "You win"
  /\ PlayRules.determineWinner (PlayRules.new rpsls) "Rock" "Spock"
     = "Computer wins".
Proof. repeat split; reflexivity. Qed.

(** ** Labels outside the move list *)

Lemma unknown_pair_is_draw_core (moves : list string) (a b : string) :
  ~ In a moves -> ~ In b moves ->
  PlayRules.determineWinner (PlayRules.new moves) a b = "Draw".
Proof.
  intros Ha Hb. apply determineWinner_draw. cbn [PlayRules.moves PlayRules.new].
  now rewrite (indexOf_absent moves a Ha), (indexOf_absent moves b Hb).
Qed.

(** C10: when neither label occurs in the move list, both lookups give -1
    and [determineWinner] returns 'Draw'. *)
Theorem unknown_pair_is_draw (moves : list string) (a b : string) :
  ~ In a moves -> ~ In b moves ->
  JS.indexOf moves a = -1 /\ JS.indexOf moves b = -1
  /\ PlayRules.determineWinner (PlayRules.new moves) a b = "Draw".
Proof.
  intros Ha Hb.
  pose proof (indexOf_absent moves a Ha) as Ea.
  pose proof (indexOf_absent moves b Hb) as Eb.
  repeat split; try assumption.
  now apply unknown_pair_is_draw_core.
Qed.

Lemma unknown_pair_is_draw_witness :
  PlayRules.determineWinner (PlayRules.new rps) "Lizard" "Spock" = "Draw".
Proof.
  apply (unknown_pair_is_draw rps "Lizard" "Spock");
    simpl; intuition discriminate.
Defined.

(** C5, as stated, fails: a label that is not in the move list still gets a
    normal outcome. *)
Lemma unknown_move_gets_outcome :
  ~ In "Lizard" rps
  /\ PlayRules.determineWinner (PlayRules.new rps) "Lizard" "Rock"
     = "Computer wins".
Proof. split; [simpl; intuition discriminate | reflexivity]. Qed.

(** C5, amended: with a label absent from the move list no error is
    reported; the absent label counts as position -1 and a normal outcome
    comes back: 'Draw' when both are absent; when only the user's label is
    absent, 'Computer wins' if the computer's position is below
    [floor(N/2)] and 'You win' otherwise; when only the computer's label is
    absent, 'Computer wins' if the user's position is at least
    [N - 1 - floor(N/2)] and 'You win' otherwise. *)
Theorem unknown_move_outcome (moves : list string) (a b : string) :
  ~ In a moves \/ ~ In b moves ->
  let N := JS.length moves in
  let outcome := PlayRules.determineWinner (PlayRules.new moves) a b in
  (outcome = "Draw" \/ outcome = "Computer wins" \/ outcome = "You win")
  /\ (~ In a moves -> ~ In b moves -> outcome = "Draw")
  /\ (~ In a moves -> In b moves ->
      outcome = if JS.indexOf moves b <? N / 2
                then "Computer wins" else "You win")
  /\ (In a moves -> ~ In b moves ->
      outcome = if N - 1 - N / 2 <=? JS.indexOf moves a
                then "Computer wins" else "You win").
Proof.
  intros _ N outcome. repeat split.
  - destruct (determineWinner_spec (PlayRules.new moves) a b)
      as [[_ E]|[(_ & _ & E)|(_ & _ & E)]]; auto.
  - intros Ha Hb. apply (unknown_pair_is_draw_core moves a b Ha Hb).
  - intros Ha Hb. unfold outcome, PlayRules.determineWinner.
    cbn [PlayRules.moves PlayRules.numMoves PlayRules.new]. fold N.
    rewrite (indexOf_absent moves a Ha).
    pose proof (indexOf_range moves b Hb) as Hr. fold N in Hr.
    split_bools; try reflexivity; lia.
  - intros Ha Hb. unfold outcome, PlayRules.determineWinner.
    cbn [PlayRules.moves PlayRules.numMoves PlayRules.new]. fold N.
    rewrite (indexOf_absent moves b Hb).
    pose proof (indexOf_range moves a Ha) as Hr. fold N in Hr.
    split_bools; try reflexivity; lia.
Qed.

(** ** Refusing a bad configuration *)

Lemma argsRejected_true (args : list string) :
  argsRejected args = true
  <-> JS.length args mod 2 = 0 \/ JS.length args < 3 \/ ~ NoDup args.
Proof.
  unfold argsRejected. rewrite <- setSize_full.
  rewrite !orb_true_iff, negb_true_iff, Z.ltb_lt, Z.eqb_eq, Z.eqb_neq.
  tauto.
Qed.

Lemma start_not_usageError (host : Host) (this : RockPaperScissorsGame.t)
  (rnd : Entropy) (chunks : list string) :
  RockPaperScissorsGame.start host this rnd chunks <> usageError.
Proof. unfold RockPaperScissorsGame.start, usageError. discriminate. Qed.

(** C6: the script ends with the usage error (two lines on stderr, exit
    code 1, no key drawn and no tag shown) exactly when the move list has
    even length, fewer than three entries or a repeated label; on a list of
    distinct labels of odd length at least three the game is constructed and
    [start] draws the key and the computer's move and shows the tag. *)
Theorem configuration_error_iff (host : Host) (args : list string)
  (rnd : Entropy) (chunks : list string) :
  (main host args rnd chunks = usageError
   <-> JS.length args mod 2 = 0 \/ JS.length args < 3 \/ ~ NoDup args)
  /\ commitmentFree usageError
  /\ (MoveSet args -> (randomIndex rnd < List.length args)%nat ->
      exists computerMove rest,
        JS.get args (randomIndex rnd) = Some computerMove
        /\ main host args rnd chunks
           = RandomBytes 32 (randomBytes32 rnd)
             :: MathRandom (randomIndex rnd)
             :: ConsoleLog
                  ("HMAC: "
                   ++ CryptoGenerate.generateHMAC host
                        (CryptoGenerate.generateKey (randomBytes32 rnd))
                        computerMove)
             :: rest).
Proof.
  repeat split.
  - intros H. apply argsRejected_true. unfold main in H.
    destruct (argsRejected args); [reflexivity|].
    now apply start_not_usageError in H.
  - intros H. apply argsRejected_true in H. unfold main. now rewrite H.
  - intros e [<-|[<-|[<-|[]]]]; exact I.
  - intros Hok Hidx. apply argsRejected_false in Hok.
    unfold main, RockPaperScissorsGame.start. rewrite Hok.
    cbn [RockPaperScissorsGame.moves RockPaperScissorsGame.new].
    unfold JS.get. destruct (nth_error args (randomIndex rnd)) as [m|] eqn:E.
    + exists m. eexists. split; reflexivity.
    + apply nth_error_None in E. lia.
Qed.

(** ** Commitment and reveal *)

(** C7: the keyed digest is a function of key and move, so a tag computed
    as [generateHMAC(secretKey, M)] passes [verify(secretKey, M, tag)],
    which recomputes the digest and compares. *)
Theorem commit_verify_round_trip (host : Host) (secretKey M tag : string) :
  tag = CryptoGenerate.generateHMAC host secretKey M ->
  verify host secretKey M tag = true.
Proof. intros ->. unfold verify. apply String.eqb_refl. Qed.

(** What the listener prints when the user selects move number [n]. *)
Lemma onData_selection (host : Host) (this : RockPaperScissorsGame.t)
  (computerMove key d : string) (n : Z) :
  String.eqb (trim host d) "0" = false ->
  String.eqb (trim host d) "?" = false ->
  parseInt10 host (trim host d) = Some n ->
  1 <= n <= JS.length (RockPaperScissorsGame.moves this) ->
  RockPaperScissorsGame.onData host this computerMove key d
  = [ConsoleLog
       ("Your move: "
        ++ JS.at_ (RockPaperScissorsGame.moves this) (Z.to_nat (n - 1)));
     ConsoleLog ("Computer move: " ++ computerMove);
     ConsoleLog
       (PlayRules.determineWinner (RockPaperScissorsGame.rules this)
          (JS.at_ (RockPaperScissorsGame.moves this) (Z.to_nat (n - 1)))
          computerMove);
     ConsoleLog ("HMAC key: " ++ key);
     ProcessExit 0].
Proof.
  intros H0 Hq Hn Hr. unfold RockPaperScissorsGame.onData.
  rewrite H0, Hq, Hn.
  destruct (Z.geb_spec (n - 1) 0); [|lia].
  destruct (Z.ltb_spec (n - 1) (JS.length (RockPaperScissorsGame.moves this)));
    [reflexivity|lia].
Qed.

(** The session hands the listener the very key and move whose digest it
    showed, so the tag shown at the start verifies against what a resolved
    round reveals. *)
Lemma session_commitment_verifies (host : Host) (moves : list string)
  (rnd : Entropy) (chunks : list string) (computerMove : string) :
  JS.get moves (randomIndex rnd) = Some computerMove ->
  let this := RockPaperScissorsGame.new moves in
  let key := CryptoGenerate.generateKey (randomBytes32 rnd) in
  exists tag,
    RockPaperScissorsGame.start host this rnd chunks
    = RandomBytes 32 (randomBytes32 rnd)
      :: MathRandom (randomIndex rnd)
      :: ConsoleLog ("HMAC: " ++ tag)
      :: RockPaperScissorsGame.menu this
      ++ OpenStdin
      :: RockPaperScissorsGame.listen
           (RockPaperScissorsGame.onData host this computerMove key) chunks
    /\ verify host key computerMove tag = true.
Proof.
  intros Hm this key. eexists. split.
  - unfold RockPaperScissorsGame.start.
    cbn [RockPaperScissorsGame.moves RockPaperScissorsGame.new this].
    rewrite Hm. reflexivity.
  - unfold verify. apply String.eqb_refl.
Qed.

(** ** The theorems at work on the classic games *)

Lemma disjunctive_rule_is_modular_witness :
  MoveSet rpsls
  /\ PlayRules.determineWinner (PlayRules.new rpsls) "Lizard" "Spock"
     = winnerModular 5 3 1.
Proof.
  assert (H : MoveSet rpsls) by (apply argsRejected_false; reflexivity).
  split; [exact H|].
  apply (disjunctive_rule_is_modular rpsls H 3 1); unfold rpsls; simpl; lia.
Defined.

Lemma winner_antisymmetric_witness :
  MoveSet rpsls
  /\ (PlayRules.determineWinner (PlayRules.new rpsls) "Rock" "Lizard" = "You win"
      <-> PlayRules.determineWinner (PlayRules.new rpsls) "Lizard" "Rock"
          = "Computer wins").
Proof.
  assert (H : MoveSet rpsls) by (apply argsRejected_false; reflexivity).
  split; [exact H|].
  apply (winner_antisymmetric rpsls H "Rock" "Lizard"); simpl; tauto.
Defined.

Lemma beats_half_loses_half_witness :
  MoveSet rpsls
  /\ countIf (fun X => String.eqb
                         (PlayRules.determineWinner (PlayRules.new rpsls)
                            "Paper" X) "You win") rpsls = 2%nat.
Proof.
  assert (H : MoveSet rpsls) by (apply argsRejected_false; reflexivity).
  split; [exact H|].
  apply (beats_half_loses_half rpsls H "Paper"); simpl; tauto.
Defined.

Lemma help_table_agrees_with_rule_witness :
  MoveSet rps
  /\ printedCell (HelpTable.table (HelpTable.new rps)) 0 2
     = fromUserSide
         (PlayRules.determineWinner (PlayRules.new rps) "Scissors" "Rock").
Proof.
  assert (H : MoveSet rps) by (apply argsRejected_false; reflexivity).
  split; [exact H|].
  assert (H0 : (0 < List.length rps)%nat) by (unfold rps; simpl; lia).
  assert (H2 : (2 < List.length rps)%nat) by (unfold rps; simpl; lia).
  exact (proj1 (help_table_agrees_with_rule rps H 0 2 H0 H2)).
Defined.

Lemma unknown_move_outcome_witness :
  ~ In "Lizard" rps
  /\ PlayRules.determineWinner (PlayRules.new rps) "Paper" "Lizard"
     = "Computer wins".
Proof.
  assert (H : ~ In "Lizard" rps) by (simpl; intuition discriminate).
  split; [exact H|].
  apply (unknown_move_outcome rps "Paper" "Lizard" (or_intror H));
    [simpl; tauto | exact H].
Defined.

Lemma configuration_error_iff_witness :
  MoveSet rps
  /\ exists rest,
       main SampleHost.host rps SampleHost.entropy ["2"]
       = RandomBytes 32 (randomBytes32 SampleHost.entropy)
         :: MathRandom 2
         :: ConsoleLog
              ("HMAC: "
               ++ CryptoGenerate.generateHMAC SampleHost.host
                    (CryptoGenerate.generateKey
                       (randomBytes32 SampleHost.entropy))
                    "Scissors")
         :: rest.
Proof.
  assert (H : MoveSet rps) by (apply argsRejected_false; reflexivity).
  split; [exact H|].
  destruct (configuration_error_iff SampleHost.host rps SampleHost.entropy ["2"])
    as (_ & _ & Hstart).
  destruct (Hstart H ltac:(unfold rps; simpl; lia)) as (m & rest & Hm & Hrun).
  injection Hm as <-. exists rest. exact Hrun.
Defined.

Lemma commit_verify_round_trip_witness :
  verify SampleHost.host "00ff" "Rock"
    (CryptoGenerate.generateHMAC SampleHost.host "00ff" "Rock") = true.
Proof.
  apply (commit_verify_round_trip SampleHost.host "00ff" "Rock").
  reflexivity.
Defined.

(** A whole run on the sample host: the user asks for help, mistypes, then
    plays move 1 against the committed Scissors. *)
Example sample_run :
  main SampleHost.host ["rock"; "paper"; "scissors"] SampleHost.entropy
    ["?" ++ JS.LF; "7"; " 1 " ++ JS.LF; "2"]
  = let key := "a7a7a7a7a7a7a7a7a7a7a7a7a7a7a7a7a7a7a7a7a7a7a7a7a7a7a7a7a7a7a7a7" in
    let menu := [ConsoleLog "Available moves:"; ConsoleLog "1 - rock";
                 ConsoleLog "2 - paper"; ConsoleLog "3 - scissors";
                 ConsoleLog "0 - exit"; ConsoleLog "? - help"] in
    ([RandomBytes 32 (repeat Byte.xa7 32); MathRandom 2;
     ConsoleLog ("HMAC: " ++ SampleHost.keyed key "scissors")]
    ++ menu
    ++ [OpenStdin;
        ConsoleLog HelpTable.banner;
        ConsoleLogTable
          {| head := ["v PC\User >"; "rock"; "paper"; "scissors"];
             colWidths := [10; 10; 10; 10];
             headStyle := ["cyan"];
             rows := [["rock"; "Draw"; "Win"; "Lose"];
                      ["paper"; "Lose"; "Draw"; "Win"];
                      ["scissors"; "Win"; "Lose"; "Draw"]] |};
        ConsoleLog "Enter your move:";
        ConsoleLog "Invalid move. Please try again."]
    ++ menu
    ++ [ConsoleLog "Your move: rock"; ConsoleLog "Computer move: scissors";
        ConsoleLog "You win"; ConsoleLog ("HMAC key: " ++ key);
        ProcessExit 0])%list.
Proof. vm_compute. reflexivity. Qed.


(** * Further properties of the program *)

(** ** Lookups in the move list *)

Lemma indexOfFrom_get (arr : list string) (x : string) :
  In x arr -> forall k,
    JS.get arr (Z.to_nat (JS.indexOfFrom arr x k - k)) = Some x.
Proof.
  unfold JS.get.
  induction arr as [|y rest IH]; intros Hx k; [contradiction|].
  cbn [JS.indexOfFrom]. destruct (String.eqb_spec y x) as [->|Hne].
  - now rewrite Z.sub_diag.
  - destruct Hx as [->|Hx]; [congruence|].
    pose proof (indexOfFrom_range rest x Hx (k + 1)) as Hr.
    specialize (IH Hx (k + 1)).
    replace (Z.to_nat (JS.indexOfFrom rest x (k + 1) - k))
      with (S (Z.to_nat (JS.indexOfFrom rest x (k + 1) - (k + 1)))) by lia.
    exact IH.
Qed.

Lemma indexOf_get (arr : list string) (x : string) :
  In x arr -> JS.get arr (Z.to_nat (JS.indexOf arr x)) = Some x.
Proof.
  intros Hx. pose proof (indexOfFrom_get arr x Hx 0) as H.
  now rewrite Z.sub_0_r in H.
Qed.

Lemma indexOf_inj (arr : list string) (x y : string) :
  In x arr -> In y arr -> JS.indexOf arr x = JS.indexOf arr y -> x = y.
Proof.
  intros Hx Hy E. pose proof (indexOf_get arr x Hx) as Gx.
  pose proof (indexOf_get arr y Hy) as Gy. rewrite E in Gx. congruence.
Qed.

(** ** More on the rule *)

(** X1: two members of the move list draw only when they are the same label,
    whatever the size of the list and even if it repeats labels. *)
Theorem draw_iff_same_move (moves : list string) (A B : string) :
  In A moves -> In B moves ->
  (PlayRules.determineWinner (PlayRules.new moves) A B = "Draw" <-> A = B).
Proof.
  intros HA HB. rewrite determineWinner_draw. cbn [PlayRules.moves PlayRules.new].
  split; [now apply indexOf_inj | now intros ->].
Qed.

Lemma draw_iff_same_move_witness :
  PlayRules.determineWinner (PlayRules.new rps) "Rock" "Paper" = "Draw"
  <-> "Rock" = "Paper".
Proof.
  apply (draw_iff_same_move rps "Rock" "Paper"); unfold rps; simpl; tauto.
Defined.

(** The window read as a cyclic distance. *)
Lemma window_distance (N u c : Z) :
  0 <= u < N -> 0 <= c < N ->
  (inWindow N u c <-> 1 <= (c - u) mod N <= N / 2).
Proof.
  intros Hu Hc. unfold inWindow. rewrite (mod_diff N u c Hu Hc).
  destruct (Z.ltb_spec c u); lia.
Qed.

(** X2: the direction of the cycle: on a configured move set the user's move
    wins exactly when it follows the computer's move by at most
    [floor(N/2)] steps, and loses exactly when the computer's move follows
    it by at most [floor(N/2)] steps. *)
Theorem later_move_wins (moves : list string) (u c : nat) :
  MoveSet moves ->
  (u < List.length moves)%nat -> (c < List.length moves)%nat ->
  let N := JS.length moves in
  let outcome :=
    PlayRules.determineWinner (PlayRules.new moves)
      (JS.at_ moves u) (JS.at_ moves c) in
  (outcome = "You win" <-> 1 <= (Z.of_nat u - Z.of_nat c) mod N <= N / 2)
  /\ (outcome = "Computer wins"
      <-> 1 <= (Z.of_nat c - Z.of_nat u) mod N <= N / 2).
Proof.
  intros (Hnd & _ & Hodd) Hu Hc N outcome. unfold outcome.
  rewrite determineWinner_you, determineWinner_computer.
  cbn [PlayRules.moves PlayRules.numMoves PlayRules.new]. fold N.
  rewrite !indexOf_at by assumption.
  assert (Hu' : 0 <= Z.of_nat u < N) by (unfold N, JS.length; lia).
  assert (Hc' : 0 <= Z.of_nat c < N) by (unfold N, JS.length; lia).
  rewrite <- (window_distance N _ _ Hc' Hu'), <- (window_distance N _ _ Hu' Hc').
  destruct (Z.eq_dec (Z.of_nat u) (Z.of_nat c)) as [E|E].
  - rewrite E. unfold inWindow. split; split; intros H; lia.
  - pose proof (window_flip N _ _ Hodd Hu' Hc' E). tauto.
Qed.

Lemma later_move_wins_witness :
  MoveSet rpsls
  /\ (PlayRules.determineWinner (PlayRules.new rpsls) "Lizard" "Spock"
      = "You win" <-> 1 <= (3 - 1) mod 5 <= 5 / 2).
Proof.
  assert (H : MoveSet rpsls) by (apply argsRejected_false; reflexivity).
  assert (H3 : (3 < List.length rpsls)%nat) by (unfold rpsls; simpl; lia).
  assert (H1 : (1 < List.length rpsls)%nat) by (unfold rpsls; simpl; lia).
  split; [exact H|].
  exact (proj1 (later_move_wins rpsls 3 1 H H3 H1)).
Defined.

(** X3: without the script's guard the rule is not fair: on a list of even
    size, two moves half a turn apart each lose to the other, whichever of
    them is the user's. *)
Theorem even_size_opposites_both_lose (moves : list string) (u : nat) :
  NoDup moves -> JS.length moves mod 2 = 0 ->
  let h := Z.to_nat (JS.length moves / 2) in
  (u + h < List.length moves)%nat ->
  PlayRules.determineWinner (PlayRules.new moves)
    (JS.at_ moves u) (JS.at_ moves (u + h)) = "Computer wins"
  /\ PlayRules.determineWinner (PlayRules.new moves)
       (JS.at_ moves (u + h)) (JS.at_ moves u) = "Computer wins".
Proof.
  intros Hnd Heven h Hu.
  assert (HN : JS.length moves = 2 * (JS.length moves / 2)).
  { rewrite (Z.div_mod (JS.length moves) 2) at 1 by lia. lia. }
  assert (Hpos : 0 < JS.length moves / 2) by (unfold JS.length in *; lia).
  rewrite !determineWinner_computer.
  cbn [PlayRules.moves PlayRules.numMoves PlayRules.new].
  rewrite !indexOf_at by (assumption || lia).
  unfold inWindow, h. split; lia.
Qed.

Lemma even_size_opposites_both_lose_witness :
  PlayRules.determineWinner (PlayRules.new ["a"; "b"; "c"; "d"]) "b" "d"
  = "Computer wins"
  /\ PlayRules.determineWinner (PlayRules.new ["a"; "b"; "c"; "d"]) "d" "b"
     = "Computer wins".
Proof.
  apply (even_size_opposites_both_lose ["a"; "b"; "c"; "d"] 1).
  - repeat constructor; simpl; intuition discriminate.
  - reflexivity.
  - simpl. lia.
Defined.

(** ** More on the help table *)

Lemma upto_length (n : nat) : HelpTable.upto (Z.of_nat n) = seq 0 n.
Proof. unfold HelpTable.upto. now rewrite Nat2Z.id. Qed.

Lemma table_row (moves : list string) (i : nat) :
  (i < List.length moves)%nat ->
  nth i (rows (HelpTable.table (HelpTable.new moves))) []
  = JS.at_ moves i
    :: map (fun j => HelpTable.cell (HelpTable.new moves)
                       (Z.of_nat i) (Z.of_nat j))
         (seq 0 (List.length moves)).
Proof.
  intros Hi. unfold HelpTable.table, HelpTable.row.
  cbn [rows HelpTable.numMoves HelpTable.moves HelpTable.new].
  unfold JS.length. rewrite upto_length. now rewrite nth_map_seq.
Qed.

(** X4: the table has one column per move after the label column, as many
    widths as columns, one row per move, and row [i] starts with the label
    of move [i] followed by one cell per move. *)
Theorem help_table_shape (moves : list string) (i : nat) :
  (i < List.length moves)%nat ->
  let t := HelpTable.table (HelpTable.new moves) in
  List.length (head t) = S (List.length moves)
  /\ colWidths t = repeat 10 (List.length (head t))
  /\ List.length (rows t) = List.length moves
  /\ List.length (nth i (rows t) []) = S (List.length moves)
  /\ nth 0 (nth i (rows t) []) "" = JS.at_ moves i.
Proof.
  intros Hi t. unfold t. rewrite (table_row moves i Hi).
  unfold HelpTable.table.
  cbn [head colWidths rows HelpTable.numMoves HelpTable.moves HelpTable.new
       List.length nth].
  unfold JS.length. rewrite upto_length, !length_map, !length_seq.
  rewrite Nat.add_1_r. repeat split; reflexivity.
Qed.

Lemma help_table_shape_witness :
  List.length (nth 1 (rows (HelpTable.table (HelpTable.new rps))) []) = 4%nat
  /\ nth 0 (nth 1 (rows (HelpTable.table (HelpTable.new rps))) []) ""
     = "Paper".
Proof.
  assert (H1 : (1 < List.length rps)%nat) by (unfold rps; simpl; lia).
  split; apply (help_table_shape rps 1 H1).
Defined.

(** X5: for an odd number of moves the diagonal of the table reads Draw, and
    off the diagonal the cells mirrored across it are one Win and one
    Lose. *)
Theorem help_table_complementary (moves : list string) (i j : nat) :
  JS.length moves mod 2 = 1 ->
  (i < List.length moves)%nat -> (j < List.length moves)%nat ->
  let t := HelpTable.table (HelpTable.new moves) in
  (i = j -> printedCell t i j = "Draw")
  /\ (i <> j ->
      (printedCell t i j = "Win" /\ printedCell t j i = "Lose")
      \/ (printedCell t i j = "Lose" /\ printedCell t j i = "Win")).
Proof.
  intros Hodd Hi Hj t. unfold t.
  rewrite !printedCell_table by assumption.
  pose proof (cell_spec (HelpTable.new moves) (Z.of_nat i) (Z.of_nat j)) as C.
  pose proof (cell_spec (HelpTable.new moves) (Z.of_nat j) (Z.of_nat i)) as D.
  cbn zeta in C, D. cbn [HelpTable.numMoves HelpTable.new] in C, D.
  assert (Hi' : 0 <= Z.of_nat i < JS.length moves) by (unfold JS.length; lia).
  assert (Hj' : 0 <= Z.of_nat j < JS.length moves) by (unfold JS.length; lia).
  split.
  - intros ->. destruct C as [[_ E]|[(U & _)|(U & _)]]; [exact E| |];
      now contradiction U.
  - intros Hne. assert (Hz : Z.of_nat i <> Z.of_nat j) by lia.
    pose proof (window_flip _ _ _ Hodd Hi' Hj' Hz) as F.
    destruct C as [[U _]|[(_ & W & E)|(_ & W & E)]]; [contradiction| |];
      destruct D as [[U' _]|[(_ & W' & E')|(_ & W' & E')]];
      try (exfalso; lia); rewrite E, E'; tauto.
Qed.

Lemma help_table_complementary_witness :
  printedCell (HelpTable.table (HelpTable.new rps)) 0 1 = "Win"
  /\ printedCell (HelpTable.table (HelpTable.new rps)) 1 0 = "Lose"
  \/ printedCell (HelpTable.table (HelpTable.new rps)) 0 1 = "Lose"
     /\ printedCell (HelpTable.table (HelpTable.new rps)) 1 0 = "Win".
Proof.
  assert (H0 : (0 < List.length rps)%nat) by (unfold rps; simpl; lia).
  assert (H1 : (1 < List.length rps)%nat) by (unfold rps; simpl; lia).
  apply (proj2 (help_table_complementary rps 0 1 eq_refl H0 H1)).
  discriminate.
Defined.

Lemma cell_win (this : HelpTable.t) (i j : Z) :
  String.eqb (HelpTable.cell this i j) "Win" = true
  <-> inWindow (HelpTable.numMoves this) i j.
Proof.
  rewrite String.eqb_eq.
  destruct (cell_spec this i j) as [[U E]|[(U & W & E)|(U & W & E)]];
    rewrite E; split; intros H; try discriminate; try reflexivity;
    try assumption; try contradiction.
  unfold inWindow in H. lia.
Qed.

Lemma cell_lose (this : HelpTable.t) (i j : Z) :
  String.eqb (HelpTable.cell this i j) "Lose" = true
  <-> i <> j /\ ~ inWindow (HelpTable.numMoves this) i j.
Proof.
  rewrite String.eqb_eq.
  destruct (cell_spec this i j) as [[U E]|[(U & W & E)|(U & W & E)]];
    rewrite E; split; intros H; try discriminate; try reflexivity;
    try (split; assumption); destruct H; contradiction.
Qed.

Lemma cell_draw (this : HelpTable.t) (i j : Z) :
  String.eqb (HelpTable.cell this i j) "Draw" = true <-> i = j.
Proof.
  rewrite String.eqb_eq.
  destruct (cell_spec this i j) as [[U E]|[(U & W & E)|(U & W & E)]];
    rewrite E; split; intros H; try discriminate; try reflexivity;
    try assumption; contradiction.
Qed.

(** X6: for an odd number of moves, the cells of every row (its label set
    aside) hold one Draw, [floor(N/2)] Win and [floor(N/2)] Lose. *)
Theorem help_table_row_balance (moves : list string) (i : nat) :
  JS.length moves mod 2 = 1 -> (i < List.length moves)%nat ->
  let cells := tl (nth i (rows (HelpTable.table (HelpTable.new moves))) []) in
  let half := Z.to_nat (JS.length moves / 2) in
  countIf (fun s => String.eqb s "Draw") cells = 1%nat
  /\ countIf (fun s => String.eqb s "Win") cells = half
  /\ countIf (fun s => String.eqb s "Lose") cells = half.
Proof.
  intros Hodd Hi cells half. unfold cells, half.
  rewrite (table_row moves i Hi). cbn [tl]. rewrite !countIf_map.
  pose proof (odd_half _ Hodd) as Hh. unfold JS.length in Hh.
  set (h := JS.length moves / 2) in *. fold (JS.length moves) in Hh.
  assert (HN : JS.length moves = Z.of_nat (List.length moves)) by reflexivity.
  split; [|split].
  - rewrite (count_two_ranges _ _ 0 0 i (S i)); [lia|lia|lia|].
    intros j Hj. rewrite cell_draw. lia.
  - destruct (Z_le_gt_dec (Z.of_nat i) h).
    + rewrite (count_two_ranges _ _ 0 0 (S i) (S i + Z.to_nat h));
        [lia|lia|lia|].
      intros j Hj. rewrite cell_win. cbn [HelpTable.numMoves HelpTable.new].
      unfold inWindow. fold h. lia.
    + rewrite (count_two_ranges _ _ 0 (S i + Z.to_nat h - List.length moves)
                 (S i) (List.length moves)); [lia|lia|lia|].
      intros j Hj. rewrite cell_win. cbn [HelpTable.numMoves HelpTable.new].
      unfold inWindow. fold h. lia.
  - destruct (Z_le_gt_dec (Z.of_nat i) h).
    + rewrite (count_two_ranges _ _ 0 i (S i + Z.to_nat h)
                 (List.length moves)); [lia|lia|lia|].
      intros j Hj. rewrite cell_lose. cbn [HelpTable.numMoves HelpTable.new].
      unfold inWindow. fold h. lia.
    + rewrite (count_two_ranges _ _ (S i + Z.to_nat h - List.length moves) i
                 i i); [lia|lia|lia|].
      intros j Hj. rewrite cell_lose. cbn [HelpTable.numMoves HelpTable.new].
      unfold inWindow. fold h. lia.
Qed.

Lemma help_table_row_balance_witness :
  countIf (fun s => String.eqb s "Win")
    (tl (nth 4 (rows (HelpTable.table (HelpTable.new rpsls))) [])) = 2%nat.
Proof.
  assert (H4 : (4 < List.length rpsls)%nat) by (unfold rpsls; simpl; lia).
  apply (help_table_row_balance rpsls 4 eq_refl H4).
Defined.

(** ** The listener *)

Lemma exits_app (a b : list Event) :
  RockPaperScissorsGame.exits (a ++ b)
  = RockPaperScissorsGame.exits a || RockPaperScissorsGame.exits b.
Proof. apply existsb_app. Qed.

Lemma listMoves_stays (moves : list string) (index : nat) :
  RockPaperScissorsGame.exits (RockPaperScissorsGame.listMoves moves index)
  = false.
Proof.
  revert index. induction moves as [|m rest IH]; intros index; [reflexivity|].
  cbn [RockPaperScissorsGame.listMoves]. apply IH.
Qed.

Lemma menu_stays (this : RockPaperScissorsGame.t) :
  RockPaperScissorsGame.exits (RockPaperScissorsGame.menu this) = false.
Proof.
  unfold RockPaperScissorsGame.menu.
  change (RockPaperScissorsGame.exits
            (RockPaperScissorsGame.listMoves
               (RockPaperScissorsGame.moves this) 0
             ++ [ConsoleLog "0 - exit"; ConsoleLog "? - help"]) = false).
  now rewrite exits_app, listMoves_stays.
Qed.

(** The two ways a chunk is not a selection. *)
Lemma onData_selection_cases (host : Host) (this : RockPaperScissorsGame.t)
  (d : string) :
  isSelection host this d = true
  <-> String.eqb (trim host d) "0" = false
      /\ String.eqb (trim host d) "?" = false
      /\ exists n, parseInt10 host (trim host d) = Some n
                   /\ 1 <= n <= JS.length (RockPaperScissorsGame.moves this).
Proof.
  unfold isSelection. cbn zeta.
  destruct (String.eqb (trim host d) "0"); cbn [negb andb];
    [split; [discriminate | intros (H & _); discriminate]|].
  destruct (String.eqb (trim host d) "?"); cbn [negb andb];
    [split; [discriminate | intros (_ & H & _); discriminate]|].
  destruct (parseInt10 host (trim host d)) as [n|].
  - rewrite andb_true_iff, Z.geb_le, Z.ltb_lt. split.
    + intros H. repeat split; trivial. exists n. split; [reflexivity|lia].
    + intros (_ & _ & m & E & H). injection E as <-. lia.
  - split; [discriminate|]. intros (_ & _ & m & E & _). discriminate.
Qed.

Lemma onData_exits (host : Host) (this : RockPaperScissorsGame.t)
  (computerMove key d : string) :
  RockPaperScissorsGame.exits
    (RockPaperScissorsGame.onData host this computerMove key d)
  = String.eqb (trim host d) "0" || isSelection host this d.
Proof.
  unfold RockPaperScissorsGame.onData, isSelection. cbn zeta.
  destruct (String.eqb (trim host d) "0"); [reflexivity|].
  destruct (String.eqb (trim host d) "?"); [reflexivity|].
  cbn [negb andb orb].
  destruct (parseInt10 host (trim host d)) as [n|].
  - destruct ((n - 1 >=? 0)
              && (n - 1 <? JS.length (RockPaperScissorsGame.moves this)));
      [reflexivity|].
    cbn [RockPaperScissorsGame.exits existsb orb]. apply menu_stays.
  - cbn [RockPaperScissorsGame.exits existsb orb]. apply menu_stays.
Qed.

(** X7: the listener ends the process in two cases only: the trimmed input is
    [0], or it is not [?] and [parseInt] reads from it a number between 1
    and the number of moves; help, unreadable input and numbers out of
    range leave the process running. *)
Theorem listener_exits_iff (host : Host) (this : RockPaperScissorsGame.t)
  (computerMove key d : string) :
  RockPaperScissorsGame.exits
    (RockPaperScissorsGame.onData host this computerMove key d) = true
  <-> trim host d = "0"
      \/ (trim host d <> "?"
          /\ exists n, parseInt10 host (trim host d) = Some n
                       /\ 1 <= n <= JS.length (RockPaperScissorsGame.moves this)).
Proof.
  rewrite onData_exits, orb_true_iff, onData_selection_cases.
  rewrite String.eqb_eq, !String.eqb_neq.
  destruct (string_dec (trim host d) "0"); tauto.
Qed.

(** X8: unless the user picks a move, what the listener prints depends neither
    on the key nor on the computer's move: exit, help and invalid input
    reveal nothing of the commitment. *)
Theorem nothing_revealed_without_selection (host : Host)
  (this : RockPaperScissorsGame.t) (computerMove key computerMove' key' : string)
  (chunks : list string) :
  (forall d, In d chunks -> isSelection host this d = false) ->
  RockPaperScissorsGame.listen
    (RockPaperScissorsGame.onData host this computerMove key) chunks
  = RockPaperScissorsGame.listen
      (RockPaperScissorsGame.onData host this computerMove' key') chunks.
Proof.
  intros Hno.
  assert (Hone : forall d, In d chunks ->
            RockPaperScissorsGame.onData host this computerMove key d
            = RockPaperScissorsGame.onData host this computerMove' key' d).
  { intros d Hd. specialize (Hno d Hd).
    unfold isSelection in Hno. cbn zeta in Hno.
    unfold RockPaperScissorsGame.onData. cbn zeta.
    destruct (String.eqb (trim host d) "0"); [reflexivity|].
    destruct (String.eqb (trim host d) "?"); [reflexivity|].
    cbn [negb andb] in Hno.
    destruct (parseInt10 host (trim host d)) as [n|]; [|reflexivity].
    now rewrite Hno. }
  clear Hno. induction chunks as [|d rest IH]; [reflexivity|].
  cbn [RockPaperScissorsGame.listen].
  rewrite (Hone d (or_introl eq_refl)), IH; [reflexivity|].
  intros d' Hd'. apply Hone. now right.
Qed.

Lemma nothing_revealed_without_selection_witness :
  RockPaperScissorsGame.listen
    (RockPaperScissorsGame.onData SampleHost.host
       (RockPaperScissorsGame.new rps) "Rock" "00") ["?"; "9"; "x"; "0"]
  = RockPaperScissorsGame.listen
      (RockPaperScissorsGame.onData SampleHost.host
         (RockPaperScissorsGame.new rps) "Paper" "ff") ["?"; "9"; "x"; "0"].
Proof.
  apply (nothing_revealed_without_selection SampleHost.host
           (RockPaperScissorsGame.new rps) "Rock" "00" "Paper" "ff"
           ["?"; "9"; "x"; "0"]).
  intros d [<-|[<-|[<-|[<-|[]]]]]; reflexivity.
Defined.



(** Chunks that do not make the listener exit are handled one after the
    other and the rest of the input is still listened to. *)
Lemma listen_through (handler : string -> list Event)
  (before rest : list string) :
  (forall d, In d before -> RockPaperScissorsGame.exits (handler d) = false) ->
  RockPaperScissorsGame.listen handler (before ++ rest)
  = (RockPaperScissorsGame.listen handler before
     ++ RockPaperScissorsGame.listen handler rest)%list.
Proof.
  induction before as [|d more IH]; intros Hstay; [reflexivity|].
  cbn [RockPaperScissorsGame.listen app].
  rewrite (Hstay d (or_introl eq_refl)), <- app_assoc, IH; [reflexivity|].
  intros d' Hd'. apply Hstay. now right.
Qed.

Lemma listen_shape (host : Host) (this : RockPaperScissorsGame.t)
  (computerMove key : string) (chunks : list string) :
  let tr := RockPaperScissorsGame.listen
              (RockPaperScissorsGame.onData host this computerMove key)
              chunks in
  RockPaperScissorsGame.exits tr = false
  \/ exists pre, tr = (pre ++ [ProcessExit 0])%list
                 /\ RockPaperScissorsGame.exits pre = false.
Proof.
  induction chunks as [|d rest IH]; [now left|].
  cbn zeta in *. cbn [RockPaperScissorsGame.listen].
  destruct (RockPaperScissorsGame.exits
              (RockPaperScissorsGame.onData host this computerMove key d))
    eqn:E.
  - right. rewrite onData_exits in E.
    unfold RockPaperScissorsGame.onData, isSelection in *. cbn zeta in *.
    destruct (String.eqb (trim host d) "0").
    + now exists [ConsoleLog "Exiting the game."].
    + destruct (String.eqb (trim host d) "?"); [discriminate|].
      cbn [negb andb orb] in E.
      destruct (parseInt10 host (trim host d)) as [n|]; [|discriminate].
      rewrite E. eexists [_; _; _; _]. split; reflexivity.
  - destruct IH as [IH|(pre & -> & Hpre)].
    + left. now rewrite exits_app, E.
    + right. eexists. rewrite app_assoc. split; [reflexivity|].
      now rewrite exits_app, E.
Qed.

(** X10: in every run the process exits at most once and nothing is printed
    after it; the exit code is 1 when the arguments are refused and 0 in
    every other case. *)
Theorem exit_is_last (host : Host) (args : list string) (rnd : Entropy)
  (chunks : list string) :
  let tr := main host args rnd chunks in
  RockPaperScissorsGame.exits tr = false
  \/ exists pre,
       tr = (pre ++ [ProcessExit (if argsRejected args then 1 else 0)])%list
       /\ RockPaperScissorsGame.exits pre = false.
Proof.
  cbn zeta. unfold main. destruct (argsRejected args).
  - right. now eexists [_; _].
  - unfold RockPaperScissorsGame.start, RockPaperScissorsGame.getUserMove.
    destruct (JS.get _ _) as [m|]; [|now left].
    destruct (listen_shape host (RockPaperScissorsGame.new args) m
                (CryptoGenerate.generateKey (randomBytes32 rnd)) chunks)
      as [H|(pre & E & H)]; cbn zeta in *.
    + left. cbn [RockPaperScissorsGame.exits existsb orb].
      fold RockPaperScissorsGame.exits.
      now rewrite exits_app, menu_stays.
    + right. rewrite E.
      exists (RandomBytes 32 (randomBytes32 rnd)
              :: MathRandom (randomIndex rnd)
              :: ConsoleLog
                   ("HMAC: "
                    ++ CryptoGenerate.generateHMAC host
                         (CryptoGenerate.generateKey (randomBytes32 rnd)) m)
              :: (RockPaperScissorsGame.menu (RockPaperScissorsGame.new args)
                  ++ OpenStdin :: pre)%list).
      split.
      * cbn [app]. do 3 f_equal. now rewrite <- app_assoc.
      * cbn [RockPaperScissorsGame.exits existsb orb].
        fold RockPaperScissorsGame.exits.
        now rewrite exits_app, menu_stays.
Qed.

(** ** The session *)

Lemma get_at (arr : list string) (i : nat) :
  (i < List.length arr)%nat -> JS.get arr i = Some (JS.at_ arr i).
Proof. intros Hi. unfold JS.get, JS.at_. now apply nth_error_nth'. Qed.

Lemma main_accepted (host : Host) (args : list string) (rnd : Entropy)
  (chunks : list string) :
  argsRejected args = false ->
  (randomIndex rnd < List.length args)%nat ->
  let game := RockPaperScissorsGame.new args in
  let key := CryptoGenerate.generateKey (randomBytes32 rnd) in
  let computerMove := JS.at_ args (randomIndex rnd) in
  main host args rnd chunks
  = (RandomBytes 32 (randomBytes32 rnd)
     :: MathRandom (randomIndex rnd)
     :: ConsoleLog ("HMAC: " ++ CryptoGenerate.generateHMAC host key computerMove)
     :: RockPaperScissorsGame.menu game
     ++ OpenStdin
     :: RockPaperScissorsGame.listen
          (RockPaperScissorsGame.onData host game computerMove key) chunks)%list.
Proof.
  intros Hok Hr game key computerMove.
  unfold main, RockPaperScissorsGame.start, RockPaperScissorsGame.getUserMove.
  rewrite Hok. cbn [RockPaperScissorsGame.moves RockPaperScissorsGame.new].
  now rewrite (get_at args _ Hr).
Qed.

(** X11: the commitment comes before any input: on accepted arguments the run
    first draws the key and the computer's move, prints the tag of exactly
    that key and move, prints the menu and only then opens stdin; whatever
    the user types is appended to this fixed beginning. *)
Theorem commitment_precedes_input (host : Host) (args : list string)
  (rnd : Entropy) (chunks : list string) :
  argsRejected args = false ->
  (randomIndex rnd < List.length args)%nat ->
  let game := RockPaperScissorsGame.new args in
  let key := CryptoGenerate.generateKey (randomBytes32 rnd) in
  let computerMove := JS.at_ args (randomIndex rnd) in
  main host args rnd []
  = (RandomBytes 32 (randomBytes32 rnd)
     :: MathRandom (randomIndex rnd)
     :: ConsoleLog ("HMAC: " ++ CryptoGenerate.generateHMAC host key computerMove)
     :: RockPaperScissorsGame.menu game ++ [OpenStdin])%list
  /\ main host args rnd chunks
     = (main host args rnd []
        ++ RockPaperScissorsGame.listen
             (RockPaperScissorsGame.onData host game computerMove key)
             chunks)%list.
Proof.
  intros Hok Hr game key computerMove.
  rewrite !(main_accepted host args rnd _ Hok Hr). fold game key computerMove.
  split; [reflexivity|].
  cbn [RockPaperScissorsGame.listen app]. do 3 f_equal.
  now rewrite <- app_assoc.
Qed.

Lemma commitment_precedes_input_witness :
  main SampleHost.host rps SampleHost.entropy ["x"; "3"]
  = (main SampleHost.host rps SampleHost.entropy []
     ++ RockPaperScissorsGame.listen
          (RockPaperScissorsGame.onData SampleHost.host
             (RockPaperScissorsGame.new rps) "Scissors"
             (CryptoGenerate.generateKey (randomBytes32 SampleHost.entropy)))
          ["x"; "3"])%list.
Proof.
  assert (H2 : (randomIndex SampleHost.entropy < List.length rps)%nat)
    by (unfold rps; simpl; lia).
  exact (proj2 (commitment_precedes_input SampleHost.host rps
                  SampleHost.entropy ["x"; "3"] eq_refl H2)).
Defined.

(** X12: a resolved round reveals the commitment: after any number of chunks
    that leave the listener running, a move number [n] in range makes the
    run end with the user's move [moves[n-1]], the computer's move and key
    whose tag was printed at the start, the outcome of [determineWinner]
    on these two moves, and exit code 0; chunks after it are ignored. *)
Theorem resolved_round_reveals_commitment (host : Host) (args : list string)
  (rnd : Entropy) (before later : list string) (d : string) (n : Z) :
  argsRejected args = false ->
  (randomIndex rnd < List.length args)%nat ->
  let game := RockPaperScissorsGame.new args in
  let key := CryptoGenerate.generateKey (randomBytes32 rnd) in
  let computerMove := JS.at_ args (randomIndex rnd) in
  let userMove := JS.at_ args (Z.to_nat (n - 1)) in
  (forall d', In d' before ->
     String.eqb (trim host d') "0" || isSelection host game d' = false) ->
  isSelection host game d = true ->
  parseInt10 host (trim host d) = Some n ->
  nth 2 (main host args rnd (before ++ d :: later)) OpenStdin
  = ConsoleLog ("HMAC: " ++ CryptoGenerate.generateHMAC host key computerMove)
  /\ main host args rnd (before ++ d :: later)
     = (main host args rnd before
        ++ [ConsoleLog ("Your move: " ++ userMove);
            ConsoleLog ("Computer move: " ++ computerMove);
            ConsoleLog (PlayRules.determineWinner (PlayRules.new args)
                          userMove computerMove);
            ConsoleLog ("HMAC key: " ++ key);
            ProcessExit 0])%list.
Proof.
  intros Hok Hr game key computerMove userMove Hbefore Hsel Hn.
  rewrite !(main_accepted host args rnd _ Hok Hr).
  fold game key computerMove. split; [reflexivity|].
  cbn [app]. do 3 f_equal. rewrite <- app_assoc. f_equal.
  cbn [app]. f_equal.
  rewrite listen_through
    by (intros d' Hd'; rewrite onData_exits; now apply Hbefore).
  f_equal. cbn [RockPaperScissorsGame.listen].
  apply onData_selection_cases in Hsel.
  destruct Hsel as (H0 & Hq & m & Hm & Hrange).
  assert (m = n) by congruence. subst m.
  rewrite (onData_selection host game computerMove key d n H0 Hq Hn Hrange).
  reflexivity.
Qed.

Lemma resolved_round_reveals_commitment_witness :
  main SampleHost.host rps SampleHost.entropy (["?"; "9"] ++ "1" :: ["2"])
  = (main SampleHost.host rps SampleHost.entropy ["?"; "9"]
     ++ [ConsoleLog "Your move: Rock";
         ConsoleLog "Computer move: Scissors";
         ConsoleLog "You win";
         ConsoleLog
           ("HMAC key: "
            ++ CryptoGenerate.generateKey (randomBytes32 SampleHost.entropy));
         ProcessExit 0])%list.
Proof.
  assert (H2 : (randomIndex SampleHost.entropy < List.length rps)%nat)
    by (unfold rps; simpl; lia).
  refine (proj2 (resolved_round_reveals_commitment SampleHost.host rps
                   SampleHost.entropy ["?"; "9"] ["2"] "1" 1
                   eq_refl H2 _ eq_refl eq_refl)).
  intros d' [<-|[<-|[]]]; reflexivity.
Defined.

(** ** The menu *)

Lemma listMoves_nth (moves : list string) (index k : nat) :
  (k < List.length moves)%nat ->
  nth k (RockPaperScissorsGame.listMoves moves index) OpenStdin
  = ConsoleLog (JS.showNat (index + k + 1) ++ " - " ++ JS.at_ moves k).
Proof.
  unfold JS.at_. revert index k.
  induction moves as [|m rest IH]; intros index k Hk; [simpl in Hk; lia|].
  destruct k as [|k]; cbn [RockPaperScissorsGame.listMoves nth].
  - now rewrite Nat.add_0_r.
  - simpl in Hk. rewrite IH by lia. do 3 f_equal. lia.
Qed.

Lemma listMoves_length (moves : list string) (index : nat) :
  List.length (RockPaperScissorsGame.listMoves moves index)
  = List.length moves.
Proof.
  revert index. induction moves as [|m rest IH]; intros index; [reflexivity|].
  cbn [RockPaperScissorsGame.listMoves List.length]. now rewrite IH.
Qed.

(** X13: the menu numbers the moves from 1 in the order of the list, and a
    number typed back selects the move listed under it: line [k+1] of the
    menu shows [k+1] beside [moves[k]], and when the listener reads [k+1]
    it announces [moves[k]] as the user's move. *)
Theorem menu_number_selects_listed_move (host : Host)
  (this : RockPaperScissorsGame.t) (computerMove key d : string) (k : nat) :
  (k < List.length (RockPaperScissorsGame.moves this))%nat ->
  trim host d <> "0" -> trim host d <> "?" ->
  parseInt10 host (trim host d) = Some (Z.of_nat k + 1) ->
  List.length (RockPaperScissorsGame.menu this)
  = (List.length (RockPaperScissorsGame.moves this) + 3)%nat
  /\ nth (S k) (RockPaperScissorsGame.menu this) OpenStdin
     = ConsoleLog (JS.showNat (k + 1) ++ " - "
                   ++ JS.at_ (RockPaperScissorsGame.moves this) k)
  /\ nth 0 (RockPaperScissorsGame.onData host this computerMove key d)
       OpenStdin
     = ConsoleLog ("Your move: " ++ JS.at_ (RockPaperScissorsGame.moves this) k).
Proof.
  intros Hk H0 Hq Hn. apply String.eqb_neq in H0, Hq. split; [|split].
  - unfold RockPaperScissorsGame.menu.
    cbn [List.length]. rewrite length_app, listMoves_length. simpl. lia.
  - unfold RockPaperScissorsGame.menu. cbn [nth].
    rewrite app_nth1 by now rewrite listMoves_length.
    now rewrite listMoves_nth.
  - rewrite (onData_selection host this computerMove key d _ H0 Hq Hn)
      by (unfold JS.length; lia).
    cbn [nth]. do 3 f_equal. lia.
Qed.

Lemma menu_number_selects_listed_move_witness :
  nth 2 (RockPaperScissorsGame.menu (RockPaperScissorsGame.new rps)) OpenStdin
  = ConsoleLog "2 - Paper"
  /\ nth 0 (RockPaperScissorsGame.onData SampleHost.host
              (RockPaperScissorsGame.new rps) "Rock" "00" " 2 ") OpenStdin
     = ConsoleLog "Your move: Paper".
Proof.
  assert (H1 : (1 < List.length
                      (RockPaperScissorsGame.moves
                         (RockPaperScissorsGame.new rps)))%nat)
    by (unfold rps; simpl; lia).
  apply (menu_number_selects_listed_move SampleHost.host
           (RockPaperScissorsGame.new rps) "Rock" "00" " 2 " 1 H1);
    [discriminate | discriminate | reflexivity].
Defined.

(** ** The key *)

Lemma concat_cons (x : string) (xs : list string) :
  String.concat "" (x :: xs) = x ++ String.concat "" xs.
Proof.
  destruct xs as [|y ys]; cbn [String.concat].
  - induction x as [|c x IH]; [reflexivity|]. cbn [append]. now rewrite <- IH.
  - reflexivity.
Qed.

Lemma toHex_cons (b : Byte.byte) (buf : list Byte.byte) :
  JS.toHex (b :: buf)
  = String (JS.hexDigit (Byte.to_N b / 16))
      (String (JS.hexDigit (Byte.to_N b mod 16)) (JS.toHex buf)).
Proof. unfold JS.toHex. cbn [map]. now rewrite concat_cons. Qed.

Lemma hexDigit_hex (d : N) : (d < 16)%N -> isHexDigit (JS.hexDigit d) = true.
Proof.
  intros Hd. unfold isHexDigit, JS.hexDigit. cbn zeta.
  destruct (N.ltb_spec d 10); rewrite N_ascii_embedding by lia;
    rewrite orb_true_iff, !andb_true_iff, !N.leb_le; lia.
Qed.

Lemma hexDigit_inj (d e : N) :
  (d < 16)%N -> (e < 16)%N -> JS.hexDigit d = JS.hexDigit e -> d = e.
Proof.
  intros Hd He E. apply (f_equal N_of_ascii) in E. unfold JS.hexDigit in E.
  destruct (N.ltb_spec d 10); destruct (N.ltb_spec e 10);
    rewrite !N_ascii_embedding in E by lia; lia.
Qed.

Lemma byte_nibbles (b : Byte.byte) :
  (Byte.to_N b / 16 < 16)%N /\ (Byte.to_N b mod 16 < 16)%N.
Proof.
  pose proof (Byte.to_N_bounded b) as Hb. split.
  - apply N.Div0.div_lt_upper_bound. lia.
  - apply N.mod_lt. discriminate.
Qed.

Lemma to_N_inj (a b : Byte.byte) : Byte.to_N a = Byte.to_N b -> a = b.
Proof.
  intros E. pose proof (Byte.of_to_N a) as Ha.
  pose proof (Byte.of_to_N b) as Hb. rewrite E in Ha. congruence.
Qed.

(** X14: the key is written with two lower-case hexadecimal digits per random
    byte, so the 32 bytes drawn by [generateKey] make a key of 64 digits. *)
Theorem key_is_hex (buf : list Byte.byte) :
  String.length (CryptoGenerate.generateKey buf) = (2 * List.length buf)%nat
  /\ allChars isHexDigit (CryptoGenerate.generateKey buf) = true.
Proof.
  unfold CryptoGenerate.generateKey.
  induction buf as [|b buf (IHlen & IHhex)]; [split; reflexivity|].
  rewrite toHex_cons. destruct (byte_nibbles b) as [Hhi Hlo]. split.
  - cbn [String.length List.length]. lia.
  - cbn [allChars]. now rewrite !hexDigit_hex, IHhex.
Qed.

(** X15: distinct random buffers give distinct keys: the hexadecimal rendering
    loses nothing of the bytes drawn. *)
Theorem key_keeps_all_bytes (buf buf' : list Byte.byte) :
  CryptoGenerate.generateKey buf = CryptoGenerate.generateKey buf'
  <-> buf = buf'.
Proof.
  unfold CryptoGenerate.generateKey. split; [|now intros ->].
  revert buf'. induction buf as [|b buf IH]; intros [|b' buf'] E;
    try reflexivity; rewrite ?toHex_cons in E; try discriminate.
  injection E as Ehi Elo Erest.
  destruct (byte_nibbles b) as [Hhi Hlo].
  destruct (byte_nibbles b') as [Hhi' Hlo'].
  apply hexDigit_inj in Ehi, Elo; try assumption.
  f_equal; [|now apply IH]. apply to_N_inj.
  rewrite (N.div_mod (Byte.to_N b) 16), (N.div_mod (Byte.to_N b') 16)
    by discriminate.
  congruence.
Qed.
